(** * grapheme_wasm.c: the big-integer handle shim

    A shallow embedding of [src/wasm/grapheme_wasm.c].  The file is the
    WebAssembly side of the library: it allocates a [grapheme_bigint]
    record and its word buffer with [malloc], hands the buffer to the
    JavaScript caller, and releases both with [free].

    The C functions are written in a small state monad over a [world]
    consisting of the heap, the answers of the allocator and the trace of
    the allocator calls made so far.  A computation that returns [None] has
    left the behaviour defined by C (a dereference of a pointer that is not
    live, a read of an uninitialised object). *)

From Stdlib Require Import ZArith List Lia.
From stdpp Require Import base option list gmap.

Local Open Scope Z_scope.

(** ** The wasm32 target *)

Module Wasm32.

(** [int] is 32 bits wide and [size_t] is an unsigned 32-bit integer. *)
Definition int_bits : Z := 32.
Definition size_bits : Z := 32.

Definition int_min : Z := - 2 ^ (int_bits - 1).
Definition int_max : Z := 2 ^ (int_bits - 1) - 1.
Definition size_max : Z := 2 ^ size_bits - 1.

Definition is_int (z : Z) : Prop := int_min <= z <= int_max.

(** [sizeof(int)] and [sizeof(grapheme_bigint)]: three [int]s and one
    pointer of four bytes each. *)
Definition sizeof_int : Z := 4.
Definition sizeof_grapheme_bigint : Z := 16.

(** The conversion of an [int] to [size_t] and the product of two
    [size_t], both modulo [2 ^ size_bits]. *)
Definition to_size_t (z : Z) : Z := z mod 2 ^ size_bits.
Definition size_mul (a b : Z) : Z := (a * b) mod 2 ^ size_bits.

End Wasm32.

Import Wasm32.

(** ** Memory *)

(** A pointer is null or the address of a block. *)
Inductive ptr : Type :=
  | NULL
  | Addr (a : positive).

Definition is_null (p : ptr) : bool :=
  match p with NULL => true | Addr _ => false end.

(** A memory cell that [malloc] has just returned holds no value yet. *)
Inductive cell (A : Type) : Type :=
  | Uninit
  | Init (v : A).

Arguments Uninit {A}.
Arguments Init {A} v.

(** [struct grapheme_bigint]. *)
Record grapheme_bigint : Type := Bigint {
  sign : cell Z;            (* -1, 0 or 1 *)
  word_count : cell Z;      (* number of used words *)
  allocated_words : cell Z; (* size of words *)
  words : cell ptr          (* words ptr *)
}.

(** A block is seen through the type its pointer was cast to: a
    [grapheme_bigint] record, or an array of [int]. *)
Inductive block : Type :=
  | BStruct (b : grapheme_bigint)
  | BInts (ws : list (cell Z)).

(** The calls made to the allocator, oldest first. *)
Inductive event : Type :=
  | EvMalloc (nbytes : Z) (result : ptr)
  | EvFree (p : ptr).

(** [allocator] lists the answers of [malloc] to the requests still to
    come: [true] grants the request, [false] refuses it; when the list is
    exhausted memory is exhausted. *)
Record world : Type := World {
  heap : gmap positive block;
  allocator : list bool;
  trace : list event
}.

Definition init_world (answers : list bool) : world :=
  {| heap := ∅; allocator := answers; trace := [] |}.

(** ** The monad of C computations *)

Definition M (A : Type) : Type := world -> option (A * world).

Definition ret {A} (x : A) : M A := fun w => Some (x, w).

Definition bind {A B} (c : M A) (k : A -> M B) : M B :=
  fun w => match c w with
           | Some (x, w') => k x w'
           | None => None
           end.

Definition undefined {A} : M A := fun _ => None.

Notation "'let*' x ':=' c 'in' k" := (bind c (fun x => k))
  (at level 10, x name, c at level 100, k at level 200).
Notation "'exec' c 'in' k" := (bind c (fun _ => k))
  (at level 10, c at level 100, k at level 200).

(** ** malloc and free *)

Definition granted (w : world) : bool :=
  match allocator w with
  | true :: _ => true
  | _ => false
  end.

(** [malloc(nbytes)], the result cast to the type [fresh_block] stands
    for. *)
Definition malloc (nbytes : Z) (fresh_block : block) : M ptr := fun w =>
  if granted w then
    let a := fresh (dom (heap w)) in
    Some (Addr a,
          {| heap := <[a := fresh_block]> (heap w);
             allocator := tail (allocator w);
             trace := trace w ++ [EvMalloc nbytes (Addr a)] |})
  else
    Some (NULL,
          {| heap := heap w;
             allocator := tail (allocator w);
             trace := trace w ++ [EvMalloc nbytes NULL] |}).

Definition uninit_bigint : grapheme_bigint :=
  {| sign := Uninit; word_count := Uninit;
     allocated_words := Uninit; words := Uninit |}.

(** The number of [int] slots in [nbytes] bytes. *)
Definition int_slots (nbytes : Z) : nat := Z.to_nat (nbytes / sizeof_int).

(** [(grapheme_bigint* ) malloc(sizeof(grapheme_bigint))] *)
Definition malloc_bigint : M ptr :=
  malloc sizeof_grapheme_bigint (BStruct uninit_bigint).

(** [(int* ) malloc(nbytes)] *)
Definition malloc_ints (nbytes : Z) : M ptr :=
  malloc nbytes (BInts (replicate (int_slots nbytes) Uninit)).

(** [free(p)]: nothing happens for a null pointer; freeing what is not
    live is undefined. *)
Definition free (p : ptr) : M unit := fun w =>
  match p with
  | NULL =>
      Some (tt, {| heap := heap w; allocator := allocator w;
                   trace := trace w ++ [EvFree NULL] |})
  | Addr a =>
      match heap w !! a with
      | Some _ =>
          Some (tt, {| heap := delete a (heap w); allocator := allocator w;
                       trace := trace w ++ [EvFree (Addr a)] |})
      | None => None
      end
  end.

(** ** Access to the record *)

Definition load (p : ptr) : M grapheme_bigint := fun w =>
  match p with
  | Addr a =>
      match heap w !! a with
      | Some (BStruct b) => Some (b, w)
      | _ => None
      end
  | NULL => None
  end.

Definition store (p : ptr) (upd : grapheme_bigint -> grapheme_bigint) : M unit :=
  fun w =>
  match p with
  | Addr a =>
      match heap w !! a with
      | Some (BStruct b) =>
          Some (tt, {| heap := <[a := BStruct (upd b)]> (heap w);
                       allocator := allocator w; trace := trace w |})
      | _ => None
      end
  | NULL => None
  end.

(** [p->f] as an rvalue. *)
Definition read_field {A} (p : ptr) (f : grapheme_bigint -> cell A) : M A :=
  let* b := load p in
  match f b with
  | Init v => ret v
  | Uninit => undefined
  end.

Definition set_sign (v : Z) (b : grapheme_bigint) : grapheme_bigint :=
  {| sign := Init v; word_count := word_count b;
     allocated_words := allocated_words b; words := words b |}.

Definition set_word_count (v : Z) (b : grapheme_bigint) : grapheme_bigint :=
  {| sign := sign b; word_count := Init v;
     allocated_words := allocated_words b; words := words b |}.

Definition set_words (v : ptr) (b : grapheme_bigint) : grapheme_bigint :=
  {| sign := sign b; word_count := word_count b;
     allocated_words := allocated_words b; words := Init v |}.

(** ** The functions of grapheme_wasm.c *)

Definition grapheme_bigint_external_init
    (sign word_count allocated_words : Z) : M ptr :=
  let* bigint := malloc_bigint in
  if is_null bigint then ret NULL else
  exec store bigint (set_sign sign) in
  exec store bigint (set_word_count word_count) in
  let allocated_words :=
    if allocated_words =? -1 then word_count else allocated_words in
  let* buf := malloc_ints (size_mul sizeof_int (to_size_t allocated_words)) in
  exec store bigint (set_words buf) in
  let* ws := read_field bigint words in
  if is_null ws then
    exec free bigint in
    ret NULL
  else ret bigint.

Definition grapheme_bigint_get_words (bigint : ptr) : M ptr :=
  read_field bigint words.

Definition grapheme_bigint_get_sign (bigint : ptr) : M Z :=
  read_field bigint sign.

Definition grapheme_bigint_get_word_count (bigint : ptr) : M Z :=
  read_field bigint word_count.

Definition grapheme_free_bigint (bigint : ptr) : M unit :=
  let* ws := read_field bigint words in
  exec free ws in
  free bigint.

(** ** The external caller's view of the buffer

    The caller fills and reads the buffer through the pointer that
    [grapheme_bigint_get_words] returns; an access outside the buffer or a
    read of a slot never written is undefined. *)

Definition write_word (buf : ptr) (i : Z) (v : Z) : M unit := fun w =>
  match buf with
  | Addr a =>
      match heap w !! a with
      | Some (BInts ws) =>
          if (0 <=? i) && (i <? Z.of_nat (length ws)) then
            Some (tt, {| heap := <[a := BInts (<[Z.to_nat i := Init v]> ws)]> (heap w);
                         allocator := allocator w; trace := trace w |})
          else None
      | _ => None
      end
  | NULL => None
  end.

Definition read_word (buf : ptr) (i : Z) : M Z := fun w =>
  match buf with
  | Addr a =>
      match heap w !! a with
      | Some (BInts ws) =>
          if 0 <=? i then
            match ws !! Z.to_nat i with
            | Some (Init v) => Some (v, w)
            | _ => None
            end
          else None
      | _ => None
      end
  | NULL => None
  end.

(** ** What [grapheme_bigint_external_init] computes *)

(** The capacity asked for once the sentinel is resolved, and the size in
    bytes passed to [malloc]. *)
Definition requested_words (word_count allocated_words : Z) : Z :=
  if allocated_words =? -1 then word_count else allocated_words.

Definition requested_bytes (word_count allocated_words : Z) : Z :=
  size_mul sizeof_int (to_size_t (requested_words word_count allocated_words)).

(** The record as [grapheme_bigint_external_init] leaves it. *)
Definition made_bigint (sg wc : Z) (buf : ptr) : grapheme_bigint :=
  {| sign := Init sg; word_count := Init wc;
     allocated_words := Uninit; words := Init buf |}.

(** The addresses the allocator hands out for the record and, after it,
    for the buffer. *)
Definition record_addr (w : world) : positive := fresh (dom (heap w)).

Definition buffer_addr (w : world) : positive :=
  fresh ({[record_addr w]} ∪ dom (heap w)).

(** The world once the allocator has given its next answer. *)
Definition answered (w : world) : world :=
  {| heap := heap w; allocator := tail (allocator w); trace := trace w |}.

Definition record_granted (w : world) : bool := granted w.
Definition buffer_granted (w : world) : bool := granted (answered w).

(** ** The interface as the external caller drives it *)

Inductive call : Type :=
  | Create (sign word_count allocated_words : Z)
  | GetWords (bigint : ptr)
  | GetSign (bigint : ptr)
  | GetWordCount (bigint : ptr)
  | Destroy (bigint : ptr)
  | WriteWord (buf : ptr) (i v : Z)
  | ReadWord (buf : ptr) (i : Z).

Inductive answer : Type :=
  | APtr (p : ptr)
  | AInt (z : Z)
  | AUnit.

Definition fmap_M {A B} (f : A -> B) (c : M A) : M B :=
  let* x := c in ret (f x).

Definition perform (c : call) : M answer :=
  match c with
  | Create sg wc aw => fmap_M APtr (grapheme_bigint_external_init sg wc aw)
  | GetWords p => fmap_M APtr (grapheme_bigint_get_words p)
  | GetSign p => fmap_M AInt (grapheme_bigint_get_sign p)
  | GetWordCount p => fmap_M AInt (grapheme_bigint_get_word_count p)
  | Destroy p => fmap_M (fun _ => AUnit) (grapheme_free_bigint p)
  | WriteWord buf i v => fmap_M (fun _ => AUnit) (write_word buf i v)
  | ReadWord buf i => fmap_M AInt (read_word buf i)
  end.

Fixpoint perform_all (cs : list call) : M (list answer) :=
  match cs with
  | [] => ret []
  | c :: cs' =>
      let* r := perform c in
      let* rs := perform_all cs' in
      ret (r :: rs)
  end.

#[global] Instance ptr_eq_dec : EqDecision ptr.
Proof. solve_decision. Defined.

#[global] Instance call_eq_dec : EqDecision call.
Proof. solve_decision. Defined.

(** ** Live handles and the ownership invariant *)

(** [a] is the address of a record that holds sign [sg] and word count
    [wc] and points to the live buffer at [buf] of contents [ws]. *)
Definition handle_at (w : world) (a : positive)
    (sg wc : Z) (buf : positive) (ws : list (cell Z)) : Prop :=
  exists b, heap w !! a = Some (BStruct b)
    /\ sign b = Init sg /\ word_count b = Init wc
    /\ words b = Init (Addr buf)
    /\ heap w !! buf = Some (BInts ws).

Definition live (w : world) (p : ptr) : Prop :=
  exists a sg wc buf ws, p = Addr a /\ handle_at w a sg wc buf ws.

(** Every record in the heap is a complete handle, and no two records
    share a buffer. *)
Definition owned (w : world) : Prop :=
  (forall a b, heap w !! a = Some (BStruct b) ->
     exists sg wc buf ws, handle_at w a sg wc buf ws)
  /\ (forall a1 a2 b1 b2,
        heap w !! a1 = Some (BStruct b1) ->
        heap w !! a2 = Some (BStruct b2) ->
        words b1 = words b2 -> a1 = a2).

(** ** Sample worlds and call sequences *)

(** A heap with one handle: record 1, buffer 2 of four slots. *)
Definition one_handle_world : world :=
  {| heap := <[1%positive := BStruct (made_bigint 1 2 (Addr 2))]>
               (<[2%positive := BInts (replicate 4 Uninit)]> ∅);
     allocator := []; trace := [] |}.

(** A session on the handle at 1 (buffer at 2): the caller fills a slot,
    creates and destroys a second handle (record 3, buffer 4) and queries
    the first one. *)
Definition sample_session : list call :=
  [GetSign (Addr 1); GetWords (Addr 1); WriteWord (Addr 2) 0 7;
   Create 0 0 (-1); ReadWord (Addr 2) 0; Destroy (Addr 3);
   GetWordCount (Addr 1)].

(** A session from an empty heap: the handle of [sample_session] is
    created first and destroyed last. *)
Definition sample_full_session : list call :=
  Create 1 2 4 :: sample_session ++ [Destroy (Addr 1)].

(** ** Calls that act on a given handle *)

(** [disturbs a buf c]: the call destroys the handle whose record is at
    [a], or writes into the buffer at [buf]. *)
Definition disturbs (a buf : positive) (c : call) : bool :=
  match c with
  | Destroy (Addr a') => bool_decide (a' = a)
  | WriteWord (Addr b') _ _ => bool_decide (b' = buf)
  | _ => false
  end.

Definition undisturbed (a buf : positive) (cs : list call) : bool :=
  forallb (fun c => negb (disturbs a buf c)) cs.

(** Every buffer in the heap is the buffer of a record in the heap. *)
Definition no_orphans (w : world) : Prop :=
  forall buf ws, heap w !! buf = Some (BInts ws) ->
    exists a b, heap w !! a = Some (BStruct b) /\ words b = Init (Addr buf).

(** ** Equations of the primitives *)

Lemma bind_some {A B} (c : M A) (k : A -> M B) w x w' :
  c w = Some (x, w') -> bind c k w = k x w'.
Proof. intros Hc. unfold bind. rewrite Hc. reflexivity. Qed.

Lemma bind_undefined {A B} (c : M A) (k : A -> M B) w :
  c w = None -> bind c k w = None.
Proof. intros Hc. unfold bind. rewrite Hc. reflexivity. Qed.

Lemma malloc_granted n blk w :
  granted w = true ->
  malloc n blk w =
    Some (Addr (fresh (dom (heap w))),
          {| heap := <[fresh (dom (heap w)) := blk]> (heap w);
             allocator := tail (allocator w);
             trace := trace w ++ [EvMalloc n (Addr (fresh (dom (heap w))))] |}).
Proof. intros Hg. unfold malloc. rewrite Hg. reflexivity. Qed.

Lemma malloc_refused n blk w :
  granted w = false ->
  malloc n blk w =
    Some (NULL,
          {| heap := heap w; allocator := tail (allocator w);
             trace := trace w ++ [EvMalloc n NULL] |}).
Proof. intros Hg. unfold malloc. rewrite Hg. reflexivity. Qed.

Lemma load_live a b w :
  heap w !! a = Some (BStruct b) -> load (Addr a) w = Some (b, w).
Proof. intros Ha. unfold load. rewrite Ha. reflexivity. Qed.

Lemma store_live a b upd w :
  heap w !! a = Some (BStruct b) ->
  store (Addr a) upd w =
    Some (tt, {| heap := <[a := BStruct (upd b)]> (heap w);
                 allocator := allocator w; trace := trace w |}).
Proof. intros Ha. unfold store. rewrite Ha. reflexivity. Qed.

Lemma read_field_live {A} a b (f : grapheme_bigint -> cell A) v w :
  heap w !! a = Some (BStruct b) -> f b = Init v ->
  read_field (Addr a) f w = Some (v, w).
Proof.
  intros Ha Hf. unfold read_field.
  rewrite (bind_some _ _ _ _ _ (load_live _ _ _ Ha)), Hf. reflexivity.
Qed.

Lemma free_live a blk w :
  heap w !! a = Some blk ->
  free (Addr a) w =
    Some (tt, {| heap := delete a (heap w); allocator := allocator w;
                 trace := trace w ++ [EvFree (Addr a)] |}).
Proof. intros Ha. unfold free. rewrite Ha. reflexivity. Qed.

Section Init.

Variables (sg wc aw : Z) (w : world).

Lemma record_addr_unused : heap w !! record_addr w = None.
Proof. unfold record_addr. apply not_elem_of_dom, is_fresh. Qed.

Lemma buffer_addr_unused :
  heap w !! buffer_addr w = None /\ buffer_addr w <> record_addr w.
Proof.
  pose proof (is_fresh ({[record_addr w]} ∪ dom (heap w))) as Hb.
  fold (buffer_addr w) in Hb. split.
  - apply not_elem_of_dom. set_solver.
  - set_solver.
Qed.

Lemma init_record_refused :
  record_granted w = false ->
  grapheme_bigint_external_init sg wc aw w =
    Some (NULL, {| heap := heap w; allocator := tail (allocator w);
                   trace := trace w ++ [EvMalloc sizeof_grapheme_bigint NULL] |}).
Proof.
  intros Hg.
  unfold grapheme_bigint_external_init, bind, malloc_bigint, malloc.
  unfold record_granted in Hg. rewrite Hg. reflexivity.
Qed.

Lemma init_buffer_refused :
  record_granted w = true -> buffer_granted w = false ->
  grapheme_bigint_external_init sg wc aw w =
    Some (NULL,
          {| heap := heap w; allocator := tail (tail (allocator w));
             trace := trace w ++
               [EvMalloc sizeof_grapheme_bigint (Addr (record_addr w));
                EvMalloc (requested_bytes wc aw) NULL;
                EvFree (Addr (record_addr w))] |}).
Proof.
  intros Hg1 Hg2.
  unfold grapheme_bigint_external_init, malloc_bigint.
  erewrite bind_some by (apply malloc_granted; exact Hg1).
  fold (record_addr w). cbn [is_null].
  erewrite bind_some
    by (eapply store_live; cbn [heap]; apply lookup_insert_eq).
  erewrite bind_some
    by (eapply store_live; cbn [heap]; apply lookup_insert_eq).
  cbn [heap allocator trace]. rewrite !insert_insert_eq.
  fold (requested_words wc aw). fold (requested_bytes wc aw).
  unfold malloc_ints.
  erewrite bind_some by (apply malloc_refused; exact Hg2).
  erewrite bind_some
    by (eapply store_live; cbn [heap]; apply lookup_insert_eq).
  erewrite bind_some
    by (eapply read_field_live; cbn [heap];
        [apply lookup_insert_eq | reflexivity]).
  cbn [is_null heap allocator trace].
  erewrite bind_some
    by (eapply free_live; cbn [heap]; apply lookup_insert_eq).
  unfold ret. cbn [heap allocator trace].
  rewrite !insert_insert_eq, delete_insert_eq, delete_id by apply record_addr_unused.
  rewrite <- !app_assoc. reflexivity.
Qed.

Lemma init_granted :
  record_granted w = true -> buffer_granted w = true ->
  grapheme_bigint_external_init sg wc aw w =
    Some (Addr (record_addr w),
          {| heap :=
               <[record_addr w :=
                   BStruct (made_bigint sg wc (Addr (buffer_addr w)))]>
                 (<[buffer_addr w :=
                      BInts (replicate (int_slots (requested_bytes wc aw)) Uninit)]>
                    (heap w));
             allocator := tail (tail (allocator w));
             trace := trace w ++
               [EvMalloc sizeof_grapheme_bigint (Addr (record_addr w));
                EvMalloc (requested_bytes wc aw) (Addr (buffer_addr w))] |}).
Proof.
  intros Hg1 Hg2. destruct buffer_addr_unused as [_ Hne].
  unfold grapheme_bigint_external_init, malloc_bigint.
  erewrite bind_some by (apply malloc_granted; exact Hg1).
  fold (record_addr w). cbn [is_null].
  erewrite bind_some
    by (eapply store_live; cbn [heap]; apply lookup_insert_eq).
  erewrite bind_some
    by (eapply store_live; cbn [heap]; apply lookup_insert_eq).
  cbn [heap allocator trace]. rewrite !insert_insert_eq.
  fold (requested_words wc aw). fold (requested_bytes wc aw).
  unfold malloc_ints.
  erewrite bind_some by (apply malloc_granted; exact Hg2).
  cbn [heap allocator trace]. rewrite dom_insert_L. fold (buffer_addr w).
  erewrite bind_some
    by (eapply store_live; cbn [heap];
        rewrite lookup_insert_ne by exact Hne; apply lookup_insert_eq).
  erewrite bind_some
    by (eapply read_field_live; cbn [heap];
        [apply lookup_insert_eq | reflexivity]).
  cbn [is_null heap allocator trace]. unfold ret.
  rewrite (insert_insert_ne _ (buffer_addr w)) by exact Hne.
  rewrite insert_insert_eq, <- !app_assoc. reflexivity.
Qed.

End Init.

(** ** Accessors on a handle *)

Lemma get_sign_handle w a sg wc buf ws :
  handle_at w a sg wc buf ws ->
  grapheme_bigint_get_sign (Addr a) w = Some (sg, w).
Proof.
  intros (b & Ha & Hs & _). unfold grapheme_bigint_get_sign.
  eapply read_field_live; eassumption.
Qed.

Lemma get_word_count_handle w a sg wc buf ws :
  handle_at w a sg wc buf ws ->
  grapheme_bigint_get_word_count (Addr a) w = Some (wc, w).
Proof.
  intros (b & Ha & _ & Hc & _). unfold grapheme_bigint_get_word_count.
  eapply read_field_live; eassumption.
Qed.

Lemma get_words_handle w a sg wc buf ws :
  handle_at w a sg wc buf ws ->
  grapheme_bigint_get_words (Addr a) w = Some (Addr buf, w).
Proof.
  intros (b & Ha & _ & _ & Hw & _). unfold grapheme_bigint_get_words.
  eapply read_field_live; eassumption.
Qed.

(** When both requests are granted the result is a handle on a fresh
    record and a fresh buffer of [int_slots (requested_bytes wc aw)]
    uninitialised slots. *)
Lemma init_granted_handle sg wc aw w :
  record_granted w = true -> buffer_granted w = true ->
  exists w',
    grapheme_bigint_external_init sg wc aw w = Some (Addr (record_addr w), w')
    /\ handle_at w' (record_addr w) sg wc (buffer_addr w)
         (replicate (int_slots (requested_bytes wc aw)) Uninit)
    /\ heap w' !! record_addr w =
         Some (BStruct (made_bigint sg wc (Addr (buffer_addr w)))).
Proof.
  intros Hg1 Hg2. destruct (buffer_addr_unused w) as [_ Hne].
  eexists. split; [apply init_granted; assumption|].
  unfold handle_at. cbn [heap]. split.
  - exists (made_bigint sg wc (Addr (buffer_addr w))).
    rewrite lookup_insert_eq, lookup_insert_ne, lookup_insert_eq by congruence.
    repeat split; reflexivity.
  - apply lookup_insert_eq.
Qed.

(** ** Creation *)

(** C1: for every sign, every word_count >= 0 and every allocated_words
    that is >= word_count or the sentinel -1, when both allocation
    requests are granted [grapheme_bigint_external_init] returns a
    non-null handle on which [grapheme_bigint_get_word_count] returns the
    given word count and [grapheme_bigint_get_sign] the given sign. *)
Theorem init_returns_handle (sg wc aw : Z) (w : world) :
  0 <= wc -> wc <= aw \/ aw = -1 ->
  record_granted w = true -> buffer_granted w = true ->
  exists a w',
    grapheme_bigint_external_init sg wc aw w = Some (Addr a, w')
    /\ grapheme_bigint_get_word_count (Addr a) w' = Some (wc, w')
    /\ grapheme_bigint_get_sign (Addr a) w' = Some (sg, w').
Proof.
  intros _ _ Hg1 Hg2.
  destruct (init_granted_handle sg wc aw w Hg1 Hg2) as (w' & Hrun & Hh & _).
  exists (record_addr w), w'. split; [exact Hrun|]. split.
  - eapply get_word_count_handle, Hh.
  - eapply get_sign_handle, Hh.
Qed.

Lemma init_returns_handle_witness :
  0 <= 2 /\ (2 <= 4 \/ 4 = -1) /\
  exists a w',
    grapheme_bigint_external_init 1 2 4 (init_world [true; true]) = Some (Addr a, w')
    /\ grapheme_bigint_get_word_count (Addr a) w' = Some (2, w')
    /\ grapheme_bigint_get_sign (Addr a) w' = Some (1, w').
Proof.
  split; [lia|]. split; [left; lia|].
  apply (init_returns_handle 1 2 4 (init_world [true; true]));
    [lia | left; lia | reflexivity | reflexivity].
Defined.

(** C3: when the record is granted and the buffer is refused,
    [grapheme_bigint_external_init] frees the record after the failed
    request and returns null; the heap is the heap the call started
    from. *)
Theorem init_buffer_failure_frees_record (sg wc aw : Z) (w : world) :
  record_granted w = true -> buffer_granted w = false ->
  exists w',
    grapheme_bigint_external_init sg wc aw w = Some (NULL, w')
    /\ heap w' = heap w
    /\ trace w' = trace w ++
         [EvMalloc sizeof_grapheme_bigint (Addr (record_addr w));
          EvMalloc (requested_bytes wc aw) NULL;
          EvFree (Addr (record_addr w))].
Proof.
  intros Hg1 Hg2. eexists. split; [apply init_buffer_refused; assumption|].
  split; reflexivity.
Qed.

Lemma init_buffer_failure_frees_record_witness :
  exists w',
    grapheme_bigint_external_init 1 2 4 (init_world [true; false]) = Some (NULL, w')
    /\ heap w' = ∅
    /\ trace w' = [EvMalloc 16 (Addr 1); EvMalloc 16 NULL; EvFree (Addr 1)].
Proof.
  apply (init_buffer_failure_frees_record 1 2 4 (init_world [true; false]));
    reflexivity.
Defined.

(** C8: [grapheme_bigint_external_init] checks none of its arguments:
    whatever the sign and whatever the allocated_words other than -1, also
    below word_count, the call goes through when the two requests are
    granted, the record holds the sign and the word count as given, the
    buffer is requested for the given allocated_words, and
    [grapheme_bigint_get_sign] returns the sign as stored. *)
Theorem init_does_not_validate (sg wc aw : Z) (w : world) :
  aw <> -1 ->
  record_granted w = true -> buffer_granted w = true ->
  exists a w' b,
    grapheme_bigint_external_init sg wc aw w = Some (Addr a, w')
    /\ heap w' !! a = Some (BStruct b)
    /\ sign b = Init sg /\ word_count b = Init wc
    /\ grapheme_bigint_get_sign (Addr a) w' = Some (sg, w')
    /\ trace w' = trace w ++
         [EvMalloc sizeof_grapheme_bigint (Addr a);
          EvMalloc (size_mul sizeof_int (to_size_t aw)) (Addr (buffer_addr w))].
Proof.
  intros Haw Hg1 Hg2.
  destruct (init_granted_handle sg wc aw w Hg1 Hg2) as (w' & Hrun & Hh & Hrec).
  exists (record_addr w), w', (made_bigint sg wc (Addr (buffer_addr w))).
  split; [exact Hrun|]. split; [exact Hrec|].
  split; [reflexivity|]. split; [reflexivity|].
  split; [eapply get_sign_handle, Hh|].
  rewrite (init_granted sg wc aw w Hg1 Hg2) in Hrun.
  injection Hrun as <-. cbn [trace].
  unfold requested_bytes, requested_words.
  destruct (Z.eqb_spec aw (-1)); [contradiction | reflexivity].
Qed.

Lemma init_does_not_validate_witness :
  5 <> -1 /\
  exists a w' b,
    grapheme_bigint_external_init 7 9 5 (init_world [true; true]) = Some (Addr a, w')
    /\ heap w' !! a = Some (BStruct b)
    /\ sign b = Init 7 /\ word_count b = Init 9
    /\ grapheme_bigint_get_sign (Addr a) w' = Some (7, w')
    /\ trace w' = [EvMalloc 16 (Addr a); EvMalloc 20 (Addr 2)].
Proof.
  split; [lia|].
  apply (init_does_not_validate 7 9 5 (init_world [true; true]));
    [lia | reflexivity | reflexivity].
Defined.

(** C10: with word_count 0 and the sentinel -1 the buffer request is
    [malloc(0)].  When that request comes back null the record is freed
    and the result is null; a handle is returned exactly when it comes
    back non-null, and its buffer has no slot. *)
Theorem init_zero_size_request (sg : Z) (w : world) :
  record_granted w = true ->
  exists p w',
    grapheme_bigint_external_init sg 0 (-1) w = Some (p, w')
    /\ if buffer_granted w then
         p = Addr (record_addr w)
         /\ handle_at w' (record_addr w) sg 0 (buffer_addr w) []
         /\ trace w' = trace w ++
              [EvMalloc sizeof_grapheme_bigint (Addr (record_addr w));
               EvMalloc 0 (Addr (buffer_addr w))]
       else
         p = NULL
         /\ heap w' = heap w
         /\ trace w' = trace w ++
              [EvMalloc sizeof_grapheme_bigint (Addr (record_addr w));
               EvMalloc 0 NULL;
               EvFree (Addr (record_addr w))].
Proof.
  intros Hg1. destruct (buffer_granted w) eqn:Hg2.
  - destruct (init_granted_handle sg 0 (-1) w Hg1 Hg2) as (w' & Hrun & Hh & _).
    exists (Addr (record_addr w)), w'. split; [exact Hrun|].
    split; [reflexivity|]. split; [exact Hh|].
    rewrite (init_granted sg 0 (-1) w Hg1 Hg2) in Hrun.
    injection Hrun as <-. reflexivity.
  - eexists NULL, _. split; [apply init_buffer_refused; assumption|].
    repeat split; reflexivity.
Qed.

Lemma init_zero_size_request_witness :
  exists p w',
    grapheme_bigint_external_init 0 0 (-1) (init_world [true; false]) = Some (p, w')
    /\ p = NULL /\ heap w' = ∅
    /\ trace w' = [EvMalloc 16 (Addr 1); EvMalloc 0 NULL; EvFree (Addr 1)].
Proof.
  apply (init_zero_size_request 0 (init_world [true; false])). reflexivity.
Defined.

(** The three ways a call of [grapheme_bigint_external_init] ends. *)
Lemma init_cases sg wc aw w :
  (record_granted w = false
   /\ grapheme_bigint_external_init sg wc aw w =
        Some (NULL, {| heap := heap w; allocator := tail (allocator w);
                       trace := trace w ++ [EvMalloc sizeof_grapheme_bigint NULL] |}))
  \/ (record_granted w = true /\ buffer_granted w = false
      /\ grapheme_bigint_external_init sg wc aw w =
           Some (NULL,
                 {| heap := heap w; allocator := tail (tail (allocator w));
                    trace := trace w ++
                      [EvMalloc sizeof_grapheme_bigint (Addr (record_addr w));
                       EvMalloc (requested_bytes wc aw) NULL;
                       EvFree (Addr (record_addr w))] |}))
  \/ (record_granted w = true /\ buffer_granted w = true
      /\ grapheme_bigint_external_init sg wc aw w =
           Some (Addr (record_addr w),
                 {| heap :=
                      <[record_addr w :=
                          BStruct (made_bigint sg wc (Addr (buffer_addr w)))]>
                        (<[buffer_addr w :=
                             BInts (replicate (int_slots (requested_bytes wc aw)) Uninit)]>
                           (heap w));
                    allocator := tail (tail (allocator w));
                    trace := trace w ++
                      [EvMalloc sizeof_grapheme_bigint (Addr (record_addr w));
                       EvMalloc (requested_bytes wc aw) (Addr (buffer_addr w))] |})).
Proof.
  destruct (record_granted w) eqn:Hg1.
  - destruct (buffer_granted w) eqn:Hg2.
    + right; right. auto using init_granted.
    + right; left. auto using init_buffer_refused.
  - left. auto using init_record_refused.
Qed.

(** ** The allocated_words field *)

(** No path through [grapheme_bigint_external_init] assigns
    [bigint->allocated_words]: on every handle it returns the field is
    still what [malloc] left there. *)
Lemma init_never_sets_allocated_words sg wc aw w a w' :
  grapheme_bigint_external_init sg wc aw w = Some (Addr a, w') ->
  exists b, heap w' !! a = Some (BStruct b) /\ allocated_words b = Uninit.
Proof.
  intros Hrun.
  destruct (init_cases sg wc aw w)
    as [(_ & E) | [(_ & _ & E) | (_ & _ & E)]];
    rewrite E in Hrun; [discriminate | discriminate |].
  injection Hrun as <- <-. eexists. split; [apply lookup_insert_eq|reflexivity].
Qed.

(** C2: [grapheme_bigint_external_init (1, 2, 4)] with both requests
    granted returns a handle whose buffer has four slots and whose
    [allocated_words] field was never assigned: the field documented as
    the size of [words] does not hold the capacity. *)
Theorem init_leaves_allocated_words_unset :
  exists w' b,
    grapheme_bigint_external_init 1 2 4 (init_world [true; true]) = Some (Addr 1, w')
    /\ heap w' !! 1%positive = Some (BStruct b)
    /\ sign b = Init 1 /\ word_count b = Init 2
    /\ words b = Init (Addr 2)
    /\ heap w' !! 2%positive = Some (BInts [Uninit; Uninit; Uninit; Uninit])
    /\ allocated_words b = Uninit
    /\ read_field (Addr 1) allocated_words w' = None.
Proof.
  eexists _, _. split; [vm_compute; reflexivity|].
  split; [vm_compute; reflexivity|].
  repeat split; vm_compute; reflexivity.
Qed.

(** ** The capacity of the buffer *)

(** As long as four times the capacity fits [size_t], the buffer has one
    slot per requested word. *)
Lemma int_slots_requested wc aw :
  0 <= requested_words wc aw < 2 ^ 30 ->
  int_slots (requested_bytes wc aw) = Z.to_nat (requested_words wc aw).
Proof.
  intros Hr. unfold int_slots, requested_bytes, size_mul, to_size_t.
  unfold sizeof_int, size_bits.
  change (2 ^ 30) with 1073741824 in Hr. change (2 ^ 32) with 4294967296.
  rewrite (Z.mod_small (requested_words wc aw)) by lia.
  rewrite Z.mod_small by lia.
  f_equal. rewrite Z.mul_comm. apply Z.div_mul. lia.
Qed.

Lemma init_sentinel_exact sg wc w :
  0 <= wc < 2 ^ 30 ->
  record_granted w = true -> buffer_granted w = true ->
  exists a w' buf ws,
    grapheme_bigint_external_init sg wc (-1) w = Some (Addr a, w')
    /\ handle_at w' a sg wc buf ws
    /\ Z.of_nat (length ws) = wc.
Proof.
  intros Hwc Hg1 Hg2.
  destruct (init_granted_handle sg wc (-1) w Hg1 Hg2) as (w' & Hrun & Hh & _).
  eexists _, _, _, _. split; [exact Hrun|]. split; [exact Hh|].
  rewrite length_replicate, int_slots_requested by exact Hwc.
  apply Z2Nat.id. unfold requested_words. simpl. lia.
Qed.

(** C4: [grapheme_bigint_external_init (1, 2^30 + 1, -1)].  The word
    count is a non-negative [int]; the byte size [sizeof(int) * (2^30 + 1)]
    wraps to 4 in [size_t], the request is [malloc(4)], and the handle
    returned reports 2^30 + 1 words over a buffer of a single slot. *)
Theorem init_sentinel_size_wraps :
  is_int (2 ^ 30 + 1) /\ 0 <= 2 ^ 30 + 1
  /\ requested_bytes (2 ^ 30 + 1) (-1) = 4
  /\ exists w',
       grapheme_bigint_external_init 1 (2 ^ 30 + 1) (-1) (init_world [true; true])
         = Some (Addr 1, w')
       /\ trace w' = [EvMalloc 16 (Addr 1); EvMalloc 4 (Addr 2)]
       /\ grapheme_bigint_get_word_count (Addr 1) w' = Some (2 ^ 30 + 1, w')
       /\ grapheme_bigint_get_words (Addr 1) w' = Some (Addr 2, w')
       /\ heap w' !! 2%positive = Some (BInts [Uninit]).
Proof.
  split; [unfold is_int, int_min, int_max, int_bits; lia|].
  split; [lia|]. split; [reflexivity|].
  eexists. split; [vm_compute; reflexivity|].
  repeat split; vm_compute; reflexivity.
Qed.

(** ** Writing and reading the buffer *)

Lemma write_word_live w buf ws i v :
  heap w !! buf = Some (BInts ws) ->
  0 <= i < Z.of_nat (length ws) ->
  write_word (Addr buf) i v w =
    Some (tt, {| heap := <[buf := BInts (<[Z.to_nat i := Init v]> ws)]> (heap w);
                 allocator := allocator w; trace := trace w |}).
Proof.
  intros Hb Hi. unfold write_word. rewrite Hb.
  destruct (Z.leb_spec 0 i); [|lia].
  destruct (Z.ltb_spec i (Z.of_nat (length ws))); [|lia].
  reflexivity.
Qed.

Lemma write_word_outside w buf ws i v :
  heap w !! buf = Some (BInts ws) ->
  Z.of_nat (length ws) <= i ->
  write_word (Addr buf) i v w = None.
Proof.
  intros Hb Hi. unfold write_word. rewrite Hb.
  destruct (Z.ltb_spec i (Z.of_nat (length ws))); [lia|].
  rewrite andb_false_r. reflexivity.
Qed.

(** A slot of the buffer holds what was last written to it. *)
Lemma write_then_read_word w buf ws i v :
  heap w !! buf = Some (BInts ws) ->
  0 <= i < Z.of_nat (length ws) ->
  exists w',
    write_word (Addr buf) i v w = Some (tt, w')
    /\ read_word (Addr buf) i w' = Some (v, w').
Proof.
  intros Hb Hi. eexists. split; [eapply write_word_live; eassumption|].
  unfold read_word. cbn [heap]. rewrite lookup_insert_eq.
  destruct (Z.leb_spec 0 i); [|lia].
  rewrite list_lookup_insert_eq by lia. reflexivity.
Qed.

(** Within the range where the byte size does not wrap, the buffer behind
    [grapheme_bigint_get_words] has one writable slot per requested word. *)
Lemma init_buffer_slots sg wc aw w i v :
  0 <= requested_words wc aw < 2 ^ 30 ->
  0 <= i < requested_words wc aw ->
  record_granted w = true -> buffer_granted w = true ->
  exists a buf w1 w2,
    grapheme_bigint_external_init sg wc aw w = Some (Addr a, w1)
    /\ grapheme_bigint_get_words (Addr a) w1 = Some (Addr buf, w1)
    /\ write_word (Addr buf) i v w1 = Some (tt, w2)
    /\ read_word (Addr buf) i w2 = Some (v, w2).
Proof.
  intros Hr Hi Hg1 Hg2.
  destruct (init_granted_handle sg wc aw w Hg1 Hg2) as (w1 & Hrun & Hh & _).
  pose proof (get_words_handle _ _ _ _ _ _ Hh) as Hgw.
  destruct Hh as (b & _ & _ & _ & _ & Hbuf).
  destruct (write_then_read_word w1 (buffer_addr w) _ i v Hbuf) as (w2 & Hw & Hrd).
  { rewrite length_replicate, int_slots_requested by exact Hr. lia. }
  eauto 10.
Qed.

(** C5: [grapheme_bigint_external_init (1, 1, 2^30 + 1)].  The capacity
    asked for is an [int] above the word count; the byte size wraps to 4,
    so the buffer behind [grapheme_bigint_get_words] has one slot, and a
    write to slot 1, below the capacity asked for, falls outside it. *)
Theorem get_words_buffer_short_of_capacity :
  is_int (2 ^ 30 + 1) /\ 1 <= 2 ^ 30 + 1 /\ 0 <= 1 < 2 ^ 30 + 1
  /\ exists w',
       grapheme_bigint_external_init 1 1 (2 ^ 30 + 1) (init_world [true; true])
         = Some (Addr 1, w')
       /\ trace w' = [EvMalloc 16 (Addr 1); EvMalloc 4 (Addr 2)]
       /\ grapheme_bigint_get_words (Addr 1) w' = Some (Addr 2, w')
       /\ heap w' !! 2%positive = Some (BInts [Uninit])
       /\ write_word (Addr 2) 1 7 w' = None.
Proof.
  split; [unfold is_int, int_min, int_max, int_bits; lia|].
  split; [lia|]. split; [lia|].
  eexists. split; [vm_compute; reflexivity|].
  repeat split; vm_compute; reflexivity.
Qed.

(** ** Destruction *)

Lemma handle_record_not_buffer w a sg wc buf ws :
  handle_at w a sg wc buf ws -> a <> buf.
Proof. intros (b & Ha & _ & _ & _ & Hb) ->. congruence. Qed.

Lemma free_bigint_handle w a sg wc buf ws :
  handle_at w a sg wc buf ws ->
  grapheme_free_bigint (Addr a) w =
    Some (tt, {| heap := delete a (delete buf (heap w));
                 allocator := allocator w;
                 trace := trace w ++ [EvFree (Addr buf); EvFree (Addr a)] |}).
Proof.
  intros Hh. pose proof (handle_record_not_buffer _ _ _ _ _ _ Hh) as Hne.
  destruct Hh as (b & Ha & _ & _ & Hw & Hb).
  unfold grapheme_free_bigint.
  erewrite bind_some by (eapply read_field_live; eassumption).
  erewrite bind_some by (eapply free_live; eassumption).
  erewrite free_live
    by (cbn [heap]; rewrite lookup_delete_ne by congruence; eassumption).
  cbn [heap allocator trace]. rewrite <- app_assoc. reflexivity.
Qed.

(** C7: on a live handle [grapheme_free_bigint] frees the word buffer and
    then the record, without any test in between; afterwards neither
    block is allocated and every other block is as it was. *)
Theorem free_bigint_releases_buffer_then_record
    (w : world) (a : positive) (sg wc : Z) (buf : positive) (ws : list (cell Z)) :
  handle_at w a sg wc buf ws ->
  exists w',
    grapheme_free_bigint (Addr a) w = Some (tt, w')
    /\ trace w' = trace w ++ [EvFree (Addr buf); EvFree (Addr a)]
    /\ heap w' !! buf = None /\ heap w' !! a = None
    /\ forall a', a' <> a -> a' <> buf -> heap w' !! a' = heap w !! a'.
Proof.
  intros Hh. pose proof (handle_record_not_buffer _ _ _ _ _ _ Hh) as Hne.
  eexists. split; [eapply free_bigint_handle, Hh|]. cbn [heap trace].
  split; [reflexivity|]. split.
  - rewrite lookup_delete_ne by congruence. apply lookup_delete_eq.
  - split; [apply lookup_delete_eq|].
    intros a' H1 H2. rewrite !lookup_delete_ne by congruence. reflexivity.
Qed.

Lemma one_handle_world_handle :
  handle_at one_handle_world 1 1 2 2 (replicate 4 Uninit).
Proof. eexists. repeat split; reflexivity. Qed.

Lemma free_bigint_releases_buffer_then_record_witness :
  handle_at one_handle_world 1 1 2 2 (replicate 4 Uninit) /\
  exists w',
    grapheme_free_bigint (Addr 1) one_handle_world = Some (tt, w')
    /\ trace w' = [EvFree (Addr 2); EvFree (Addr 1)]
    /\ heap w' !! 2%positive = None /\ heap w' !! 1%positive = None
    /\ forall a', a' <> 1%positive -> a' <> 2%positive ->
         heap w' !! a' = heap one_handle_world !! a'.
Proof.
  split; [exact one_handle_world_handle|].
  exact (free_bigint_releases_buffer_then_record one_handle_world 1 1 2 2 _
           one_handle_world_handle).
Defined.

(** Creation followed by destruction gives back the heap the creation
    started from. *)
Lemma init_then_free_restores_heap sg wc aw w a w1 :
  grapheme_bigint_external_init sg wc aw w = Some (Addr a, w1) ->
  exists w2,
    grapheme_free_bigint (Addr a) w1 = Some (tt, w2) /\ heap w2 = heap w.
Proof.
  intros Hrun.
  destruct (init_cases sg wc aw w)
    as [(_ & E) | [(_ & _ & E) | (Hg1 & Hg2 & E)]];
    rewrite E in Hrun; [discriminate | discriminate |].
  destruct (init_granted_handle sg wc aw w Hg1 Hg2) as (w1' & Hrun' & Hh & _).
  rewrite E in Hrun'. injection Hrun as <- <-. injection Hrun' as <-.
  destruct (buffer_addr_unused w) as [Hb Hne].
  eexists. split; [eapply free_bigint_handle, Hh|]. cbn [heap].
  rewrite delete_insert_ne, delete_insert_eq, delete_insert_eq by congruence.
  rewrite (delete_id _ (buffer_addr w)) by exact Hb.
  apply delete_id, record_addr_unused.
Qed.

(** ** Inversion of the primitives *)

Lemma read_field_inv {A} p (f : grapheme_bigint -> cell A) w v w' :
  read_field p f w = Some (v, w') ->
  w' = w /\ exists a b, p = Addr a /\ heap w !! a = Some (BStruct b) /\ f b = Init v.
Proof.
  unfold read_field, bind, load, ret, undefined. intros Hrun.
  destruct p as [|a]; [discriminate|].
  destruct (heap w !! a) as [[b|ws]|] eqn:Ha; try discriminate.
  destruct (f b) as [|v0] eqn:Hf; [discriminate|].
  injection Hrun as <- <-. eauto 6.
Qed.

Lemma write_word_inv p i v w r w' :
  write_word p i v w = Some (r, w') ->
  exists a ws,
    p = Addr a /\ heap w !! a = Some (BInts ws)
    /\ heap w' = <[a := BInts (<[Z.to_nat i := Init v]> ws)]> (heap w).
Proof.
  unfold write_word. intros Hrun.
  destruct p as [|a]; [discriminate|].
  destruct (heap w !! a) as [[b|ws]|] eqn:Ha; try discriminate.
  destruct ((0 <=? i) && (i <? Z.of_nat (length ws))); [|discriminate].
  injection Hrun as <- <-. eauto.
Qed.

Lemma read_word_inv p i w v w' :
  read_word p i w = Some (v, w') -> w' = w.
Proof.
  unfold read_word. intros Hrun.
  destruct p as [|a]; [discriminate|].
  destruct (heap w !! a) as [[b|ws]|]; try discriminate.
  destruct (0 <=? i); [|discriminate].
  destruct (ws !! Z.to_nat i) as [[|v0]|]; try discriminate.
  injection Hrun as <- <-. reflexivity.
Qed.

Lemma fmap_M_inv {A B} (f : A -> B) (c : M A) w r w' :
  fmap_M f c w = Some (r, w') -> exists x, c w = Some (x, w') /\ r = f x.
Proof.
  unfold fmap_M, bind, ret. destruct (c w) as [[x w1]|]; [|discriminate].
  intros [= <- <-]. eauto.
Qed.

(** The accessors leave the world as it is. *)
Lemma accessors_pure p w :
  (forall v w', grapheme_bigint_get_words p w = Some (v, w') -> w' = w)
  /\ (forall v w', grapheme_bigint_get_sign p w = Some (v, w') -> w' = w)
  /\ (forall v w', grapheme_bigint_get_word_count p w = Some (v, w') -> w' = w).
Proof.
  repeat split; intros v w' Hrun; apply read_field_inv in Hrun as [-> _];
    reflexivity.
Qed.

(** ** The ownership invariant is kept by every call *)

Lemma owned_init_world answers : owned (init_world answers).
Proof.
  split; cbn [init_world heap].
  - intros a b Ha. rewrite lookup_empty in Ha. discriminate.
  - intros a1 a2 b1 b2 Ha. rewrite lookup_empty in Ha. discriminate.
Qed.

Lemma owned_same_heap w w' : heap w' = heap w -> owned w -> owned w'.
Proof. unfold owned, handle_at. intros ->. tauto. Qed.

Lemma owned_handle w a b :
  owned w -> heap w !! a = Some (BStruct b) ->
  exists sg wc buf ws, handle_at w a sg wc buf ws.
Proof. intros [H _]. apply H. Qed.

Lemma owned_init sg wc aw w p w' :
  owned w ->
  grapheme_bigint_external_init sg wc aw w = Some (p, w') -> owned w'.
Proof.
  intros Ho Hrun.
  destruct (init_cases sg wc aw w)
    as [(_ & E) | [(_ & _ & E) | (_ & _ & E)]];
    rewrite E in Hrun; injection Hrun as <- <-;
    try (eapply owned_same_heap; [reflexivity | exact Ho]).
  pose proof (record_addr_unused w) as Hr.
  destruct (buffer_addr_unused w) as [Hb Hne].
  destruct Ho as [Hcomplete Hinj].
  assert (Hold : forall a b, a <> record_addr w ->
            (<[record_addr w := BStruct (made_bigint sg wc (Addr (buffer_addr w)))]>
               (<[buffer_addr w :=
                    BInts (replicate (int_slots (requested_bytes wc aw)) Uninit)]>
                  (heap w))) !! a = Some (BStruct b) ->
            heap w !! a = Some (BStruct b)).
  { intros a b Ha Hl. rewrite lookup_insert_ne in Hl by congruence.
    destruct (decide (a = buffer_addr w)) as [->|Hab].
    - rewrite lookup_insert_eq in Hl. discriminate.
    - rewrite lookup_insert_ne in Hl by congruence. exact Hl. }
  split; cbn [heap].
  - intros a b Hl. destruct (decide (a = record_addr w)) as [->|Ha].
    + exists sg, wc, (buffer_addr w), (replicate (int_slots (requested_bytes wc aw)) Uninit).
      exists (made_bigint sg wc (Addr (buffer_addr w))). cbn [heap].
      rewrite lookup_insert_eq, lookup_insert_ne, lookup_insert_eq by congruence.
      repeat split; reflexivity.
    + apply Hold in Hl; [|exact Ha].
      destruct (Hcomplete a b Hl) as (sg0 & wc0 & buf0 & ws0 & b0 & Ha0 & Hs & Hc & Hw & Hbuf).
      exists sg0, wc0, buf0, ws0, b0. cbn [heap].
      rewrite !lookup_insert_ne by congruence.
      repeat split; assumption.
  - intros a1 a2 b1 b2 H1 H2 Heq.
    destruct (decide (a1 = record_addr w)) as [->|Ha1];
      destruct (decide (a2 = record_addr w)) as [->|Ha2]; try reflexivity.
    + rewrite lookup_insert_eq in H1. injection H1 as <-.
      apply Hold in H2; [|exact Ha2].
      destruct (Hcomplete a2 b2 H2) as (? & ? & buf0 & ? & b0 & Ha0 & _ & _ & Hw & Hbuf).
      assert (b0 = b2) as -> by congruence.
      cbn [made_bigint words] in Heq. congruence.
    + rewrite lookup_insert_eq in H2. injection H2 as <-.
      apply Hold in H1; [|exact Ha1].
      destruct (Hcomplete a1 b1 H1) as (? & ? & buf0 & ? & b0 & Ha0 & _ & _ & Hw & Hbuf).
      assert (b0 = b1) as -> by congruence.
      cbn [made_bigint words] in Heq. congruence.
    + apply Hold in H1, H2; try assumption. eapply Hinj; eassumption.
Qed.

(** What a defined call of [grapheme_free_bigint] did, in a heap that
    satisfies the invariant. *)
Lemma free_bigint_inv w p r w' :
  owned w ->
  grapheme_free_bigint p w = Some (r, w') ->
  exists a sg wc buf ws,
    p = Addr a /\ handle_at w a sg wc buf ws
    /\ heap w' = delete a (delete buf (heap w)).
Proof.
  intros Ho Hrun.
  assert (exists a b, p = Addr a /\ heap w !! a = Some (BStruct b))
    as (a & b & -> & Ha).
  { unfold grapheme_free_bigint, bind in Hrun.
    destruct (read_field p words w) as [[v w1]|] eqn:Hr; [|discriminate].
    apply read_field_inv in Hr as (_ & a & b & -> & Ha & _). eauto. }
  destruct (owned_handle w a b Ho Ha) as (sg & wc & buf & ws & Hh).
  rewrite (free_bigint_handle _ _ _ _ _ _ Hh) in Hrun.
  injection Hrun as <- <-. eauto 10.
Qed.

Lemma owned_free w p r w' :
  owned w -> grapheme_free_bigint p w = Some (r, w') -> owned w'.
Proof.
  intros Ho Hrun.
  destruct (free_bigint_inv w p r w' Ho Hrun)
    as (a & sg & wc & buf & ws & -> & Hh & Hheap).
  destruct Ho as [Hcomplete Hinj].
  destruct Hh as (b & Ha & _ & _ & Hw & Hbuf).
  assert (Hold : forall a0 blk, heap w' !! a0 = Some blk ->
            a0 <> a /\ a0 <> buf /\ heap w !! a0 = Some blk).
  { intros a0 blk. rewrite Hheap. intros Hl.
    apply lookup_delete_Some in Hl as [H1 Hl].
    apply lookup_delete_Some in Hl as [H2 Hl]. auto. }
  split.
  - intros a0 b0 Hl. apply Hold in Hl as (H1 & H2 & Hl).
    destruct (Hcomplete a0 b0 Hl)
      as (sg0 & wc0 & buf0 & ws0 & b1 & Ha0 & Hs & Hc & Hw0 & Hbuf0).
    assert (b1 = b0) as -> by congruence.
    exists sg0, wc0, buf0, ws0, b0. rewrite Hheap.
    assert (buf0 <> a) by congruence.
    assert (buf0 <> buf).
    { intros ->. apply H1. eapply Hinj; [exact Hl | exact Ha | congruence]. }
    rewrite !lookup_delete_ne by congruence.
    repeat split; assumption.
  - intros a1 a2 b1 b2 H1 H2 Heq.
    apply Hold in H1 as (_ & _ & H1). apply Hold in H2 as (_ & _ & H2).
    eapply Hinj; eassumption.
Qed.

Lemma owned_write_word w p i v r w' :
  owned w -> write_word p i v w = Some (r, w') -> owned w'.
Proof.
  intros [Hcomplete Hinj] Hrun.
  apply write_word_inv in Hrun as (a & ws & -> & Ha & Hheap).
  assert (Hold : forall a0 b0, heap w' !! a0 = Some (BStruct b0) ->
            heap w !! a0 = Some (BStruct b0)).
  { intros a0 b0. rewrite Hheap. intros Hl.
    destruct (decide (a0 = a)) as [->|Hne].
    - rewrite lookup_insert_eq in Hl. discriminate.
    - rewrite lookup_insert_ne in Hl by congruence. exact Hl. }
  split.
  - intros a0 b0 Hl. apply Hold in Hl.
    destruct (Hcomplete a0 b0 Hl)
      as (sg0 & wc0 & buf0 & ws0 & b1 & Ha0 & Hs & Hc & Hw0 & Hbuf0).
    assert (a0 <> a) by congruence.
    destruct (decide (buf0 = a)) as [->|Hne].
    + exists sg0, wc0, a, (<[Z.to_nat i := Init v]> ws), b1. rewrite Hheap.
      rewrite lookup_insert_ne, lookup_insert_eq by congruence.
      repeat split; assumption.
    + exists sg0, wc0, buf0, ws0, b1. rewrite Hheap.
      rewrite !lookup_insert_ne by congruence.
      repeat split; assumption.
  - intros a1 a2 b1 b2 H1 H2 Heq. apply Hold in H1, H2.
    eapply Hinj; eassumption.
Qed.

Lemma owned_perform c w r w' :
  owned w -> perform c w = Some (r, w') -> owned w'.
Proof.
  intros Ho Hrun. destruct c; cbn [perform] in Hrun;
    apply fmap_M_inv in Hrun as (x & Hrun & _).
  - eapply owned_init; eassumption.
  - apply read_field_inv in Hrun as [-> _]. exact Ho.
  - apply read_field_inv in Hrun as [-> _]. exact Ho.
  - apply read_field_inv in Hrun as [-> _]. exact Ho.
  - eapply owned_free; eassumption.
  - eapply owned_write_word; eassumption.
  - apply read_word_inv in Hrun as ->. exact Ho.
Qed.

(** ** The record of a live handle is never written again *)

(** A call other than the destruction of the handle at [a] leaves the
    record at [a] as it is. *)
Lemma perform_keeps_record c w r w' a b :
  owned w -> heap w !! a = Some (BStruct b) ->
  c <> Destroy (Addr a) ->
  perform c w = Some (r, w') ->
  heap w' !! a = Some (BStruct b).
Proof.
  intros Ho Ha Hc Hrun. destruct c; cbn [perform] in Hrun;
    apply fmap_M_inv in Hrun as (x & Hrun & _).
  - destruct (init_cases sign0 word_count0 allocated_words0 w)
      as [(_ & E) | [(_ & _ & E) | (_ & _ & E)]];
      rewrite E in Hrun; injection Hrun as <- <-; cbn [heap]; try exact Ha.
    pose proof (record_addr_unused w) as Hr.
    destruct (buffer_addr_unused w) as [Hb _].
    rewrite !lookup_insert_ne by congruence. exact Ha.
  - apply read_field_inv in Hrun as [-> _]. exact Ha.
  - apply read_field_inv in Hrun as [-> _]. exact Ha.
  - apply read_field_inv in Hrun as [-> _]. exact Ha.
  - destruct (free_bigint_inv w bigint x w' Ho Hrun)
      as (a0 & sg & wc & buf & ws & -> & Hh & Hheap).
    destruct Hh as (b0 & Ha0 & _ & _ & _ & Hbuf).
    rewrite Hheap, !lookup_delete_ne by congruence. exact Ha.
  - apply write_word_inv in Hrun as (a0 & ws & -> & Ha0 & Hheap).
    rewrite Hheap, lookup_insert_ne by congruence. exact Ha.
  - apply read_word_inv in Hrun as ->. exact Ha.
Qed.

Lemma perform_all_keeps_record cs : forall w rs w' a b,
  owned w -> heap w !! a = Some (BStruct b) ->
  Destroy (Addr a) ∉ cs ->
  perform_all cs w = Some (rs, w') ->
  heap w' !! a = Some (BStruct b).
Proof.
  induction cs as [|c cs IH]; intros w rs w' a b Ho Ha Hnd Hrun.
  - injection Hrun as <- <-. exact Ha.
  - cbn [perform_all] in Hrun. unfold bind in Hrun.
    destruct (perform c w) as [[r w1]|] eqn:Hc; [|discriminate].
    destruct (perform_all cs w1) as [[rs1 w2]|] eqn:Hcs; [|discriminate].
    injection Hrun as <- <-.
    apply not_elem_of_cons in Hnd as [Hne Hnd].
    eapply IH; [| |exact Hnd|exact Hcs].
    + eapply owned_perform; eassumption.
    + eapply perform_keeps_record; eauto.
Qed.

(** C9: after [grapheme_bigint_external_init] has returned a handle, no
    sequence of calls of the interface that does not destroy the handle
    changes its record: the record is the one creation left, and
    [grapheme_bigint_get_sign] and [grapheme_bigint_get_word_count] return
    the sign and the word count given at creation. *)
Theorem handle_fields_never_rewritten
    (sg wc aw : Z) (w0 w w' : world) (a : positive)
    (cs : list call) (rs : list answer) :
  owned w0 ->
  grapheme_bigint_external_init sg wc aw w0 = Some (Addr a, w) ->
  Destroy (Addr a) ∉ cs ->
  perform_all cs w = Some (rs, w') ->
  heap w' !! a = heap w !! a
  /\ grapheme_bigint_get_sign (Addr a) w' = Some (sg, w')
  /\ grapheme_bigint_get_word_count (Addr a) w' = Some (wc, w').
Proof.
  intros Ho Hinit Hnd Hrun.
  pose proof (owned_init _ _ _ _ _ _ Ho Hinit) as Ho1.
  destruct (init_cases sg wc aw w0)
    as [(_ & E) | [(_ & _ & E) | (Hg1 & Hg2 & E)]];
    rewrite E in Hinit; [discriminate | discriminate |].
  destruct (init_granted_handle sg wc aw w0 Hg1 Hg2) as (w1 & Hrun1 & _ & Hrec).
  rewrite E in Hrun1. injection Hinit as <- <-. injection Hrun1 as <-.
  pose proof (perform_all_keeps_record cs _ rs w' _ _ Ho1 Hrec Hnd Hrun) as Hkept.
  split; [congruence|].
  split; [unfold grapheme_bigint_get_sign | unfold grapheme_bigint_get_word_count];
    eapply read_field_live; try exact Hkept; reflexivity.
Qed.

Lemma handle_fields_never_rewritten_witness :
  exists w w' rs,
    grapheme_bigint_external_init 1 2 4 (init_world [true; true; true; true])
      = Some (Addr 1, w)
    /\ perform_all sample_session w = Some (rs, w')
    /\ rs = [AInt 1; APtr (Addr 2); AUnit; APtr (Addr 3); AInt 7; AUnit; AInt 2]
    /\ heap w' !! 1%positive = heap w !! 1%positive
    /\ grapheme_bigint_get_sign (Addr 1) w' = Some (1, w')
    /\ grapheme_bigint_get_word_count (Addr 1) w' = Some (2, w').
Proof.
  eexists _, _, _.
  split; [vm_compute; reflexivity|].
  split; [vm_compute; reflexivity|].
  split; [reflexivity|].
  eapply (handle_fields_never_rewritten 1 2 4
            (init_world [true; true; true; true]) _ _ 1 sample_session).
  - apply owned_init_world.
  - vm_compute; reflexivity.
  - refine (bool_decide_unpack (Destroy (Addr 1) ∉ sample_session) _).
    vm_compute. exact I.
  - vm_compute; reflexivity.
Defined.

(** ** Errors *)

(** C6: the only failure of the interface is a refused allocation in
    [grapheme_bigint_external_init], reported by a null result: the call
    is always defined, and its result is null exactly when one of the
    [malloc] calls it made returned null.  On a live handle
    [grapheme_bigint_get_words], [grapheme_bigint_get_sign],
    [grapheme_bigint_get_word_count] and [grapheme_free_bigint] are
    defined and have no failure result; the buffer pointer is not null. *)
Theorem allocation_failure_is_the_only_error :
  (forall (sg wc aw : Z) (w : world),
     exists p w' evs,
       grapheme_bigint_external_init sg wc aw w = Some (p, w')
       /\ trace w' = trace w ++ evs
       /\ (p = NULL <-> exists n, EvMalloc n NULL ∈ evs))
  /\ (forall (w : world) (p : ptr),
        live w p ->
        exists buf sg wc w',
          grapheme_bigint_get_words p w = Some (Addr buf, w)
          /\ grapheme_bigint_get_sign p w = Some (sg, w)
          /\ grapheme_bigint_get_word_count p w = Some (wc, w)
          /\ grapheme_free_bigint p w = Some (tt, w')).
Proof.
  split.
  - intros sg wc aw w.
    destruct (init_cases sg wc aw w)
      as [(_ & E) | [(_ & _ & E) | (_ & _ & E)]]; rewrite E;
      eexists _, _, _; (split; [reflexivity|]); cbn [trace];
      (split; [reflexivity|]).
    + split; [intros _|reflexivity]. eexists. apply list_elem_of_here.
    + split; [intros _|reflexivity]. eexists.
      apply list_elem_of_further, list_elem_of_here.
    + split; [discriminate|]. intros [n Hn].
      rewrite !elem_of_cons, elem_of_nil in Hn.
      destruct Hn as [Hn|[Hn|[]]]; discriminate.
  - intros w p (a & sg & wc & buf & ws & -> & Hh).
    exists buf, sg, wc. eexists.
    split; [eapply get_words_handle, Hh|].
    split; [eapply get_sign_handle, Hh|].
    split; [eapply get_word_count_handle, Hh|].
    eapply free_bigint_handle, Hh.
Qed.

Lemma one_handle_world_live : live one_handle_world (Addr 1).
Proof.
  exists 1%positive, 1, 2, 2%positive, (replicate 4 Uninit).
  split; [reflexivity | exact one_handle_world_handle].
Qed.

Lemma allocation_failure_is_the_only_error_witness :
  live one_handle_world (Addr 1) /\
  exists buf sg wc w',
    grapheme_bigint_get_words (Addr 1) one_handle_world = Some (Addr buf, one_handle_world)
    /\ grapheme_bigint_get_sign (Addr 1) one_handle_world = Some (sg, one_handle_world)
    /\ grapheme_bigint_get_word_count (Addr 1) one_handle_world = Some (wc, one_handle_world)
    /\ grapheme_free_bigint (Addr 1) one_handle_world = Some (tt, w').
Proof.
  split; [exact one_handle_world_live|].
  exact (proj2 allocation_failure_is_the_only_error one_handle_world (Addr 1)
           one_handle_world_live).
Defined.

(** ** Handles stay live until they are destroyed *)

Lemma owned_perform_all cs : forall w rs w',
  owned w -> perform_all cs w = Some (rs, w') -> owned w'.
Proof.
  induction cs as [|c cs IH]; intros w rs w' Ho Hrun.
  - injection Hrun as <- <-. exact Ho.
  - cbn [perform_all] in Hrun. unfold bind in Hrun.
    destruct (perform c w) as [[r w1]|] eqn:Hc; [|discriminate].
    destruct (perform_all cs w1) as [[rs1 w2]|] eqn:Hcs; [|discriminate].
    injection Hrun as <- <-.
    eapply IH; [eapply owned_perform; eassumption | exact Hcs].
Qed.

(** The handles the theorems above call live are the ones the interface
    produces: a handle returned by [grapheme_bigint_external_init] is live
    after any session that does not destroy it. *)
Lemma created_handle_stays_live sg wc aw w0 w w' a cs rs :
  owned w0 ->
  grapheme_bigint_external_init sg wc aw w0 = Some (Addr a, w) ->
  Destroy (Addr a) ∉ cs ->
  perform_all cs w = Some (rs, w') ->
  live w' (Addr a).
Proof.
  intros Ho Hinit Hnd Hrun.
  pose proof (owned_init _ _ _ _ _ _ Ho Hinit) as Ho1.
  destruct (init_never_sets_allocated_words _ _ _ _ _ _ Hinit) as (b & Hb & _).
  pose proof (perform_all_keeps_record cs _ _ _ _ _ Ho1 Hb Hnd Hrun) as Hkept.
  pose proof (owned_perform_all cs _ _ _ Ho1 Hrun) as Ho2.
  destruct (owned_handle _ _ _ Ho2 Hkept) as (sg' & wc' & buf & ws & Hh).
  exists a, sg', wc', buf, ws. split; [reflexivity | exact Hh].
Qed.

(** ** More on creation *)

(** X1: when the record request is refused,
    [grapheme_bigint_external_init] returns null at once: the only
    allocator call is the refused [malloc(sizeof(grapheme_bigint))], no
    buffer is requested, nothing is freed and the heap is unchanged. *)
Theorem init_record_failure_touches_nothing (sg wc aw : Z) (w : world) :
  record_granted w = false ->
  exists w',
    grapheme_bigint_external_init sg wc aw w = Some (NULL, w')
    /\ heap w' = heap w
    /\ trace w' = trace w ++ [EvMalloc sizeof_grapheme_bigint NULL].
Proof.
  intros Hg. eexists. split; [apply init_record_refused; exact Hg|].
  split; reflexivity.
Qed.

Lemma init_record_failure_touches_nothing_witness :
  record_granted one_handle_world = false /\
  exists w',
    grapheme_bigint_external_init 1 2 4 one_handle_world = Some (NULL, w')
    /\ heap w' = heap one_handle_world
    /\ trace w' = [EvMalloc 16 NULL].
Proof.
  split; [reflexivity|].
  exact (init_record_failure_touches_nothing 1 2 4 one_handle_world eq_refl).
Defined.

(** X2: the sentinel stands for the word count: a call with
    allocated_words = -1 is the call with allocated_words = word_count,
    for every word count, -1 included. *)
Theorem init_sentinel_same_as_word_count (sg wc : Z) (w : world) :
  grapheme_bigint_external_init sg wc (-1) w =
  grapheme_bigint_external_init sg wc wc w.
Proof.
  unfold grapheme_bigint_external_init.
  change (-1 =? -1) with true. cbv iota.
  destruct (wc =? -1); reflexivity.
Qed.

(** The number of slots obtained is the capacity asked for modulo 2^30. *)
Lemma int_slots_modulo wc aw :
  int_slots (requested_bytes wc aw) = Z.to_nat (requested_words wc aw mod 2 ^ 30).
Proof.
  unfold int_slots, requested_bytes, size_mul, to_size_t, sizeof_int, size_bits.
  f_equal. set (c := requested_words wc aw).
  rewrite Z.mul_mod_idemp_r by lia.
  change (2 ^ 32) with (4 * 2 ^ 30).
  rewrite Z.mul_mod_distr_l by lia.
  rewrite Z.mul_comm. apply Z.div_mul. lia.
Qed.

(** X3: the buffer of a handle has as many slots as the capacity asked
    for (the word count under the sentinel) modulo 2^30, since the byte
    size is computed in 32-bit [size_t]; every slot is uninitialised. *)
Theorem init_capacity_modulo (sg wc aw : Z) (w : world) :
  record_granted w = true -> buffer_granted w = true ->
  exists a buf w',
    grapheme_bigint_external_init sg wc aw w = Some (Addr a, w')
    /\ grapheme_bigint_get_words (Addr a) w' = Some (Addr buf, w')
    /\ heap w' !! buf =
         Some (BInts (replicate (Z.to_nat (requested_words wc aw mod 2 ^ 30)) Uninit)).
Proof.
  intros Hg1 Hg2.
  destruct (init_granted_handle sg wc aw w Hg1 Hg2) as (w' & Hrun & Hh & _).
  exists (record_addr w), (buffer_addr w), w'. split; [exact Hrun|].
  split; [eapply get_words_handle, Hh|].
  destruct Hh as (b & _ & _ & _ & _ & Hbuf).
  rewrite <- int_slots_modulo. exact Hbuf.
Qed.

Lemma init_capacity_modulo_witness :
  exists a buf w',
    grapheme_bigint_external_init 1 2 (-3) (init_world [true; true]) = Some (Addr a, w')
    /\ grapheme_bigint_get_words (Addr a) w' = Some (Addr buf, w')
    /\ heap w' !! buf =
         Some (BInts (replicate (Z.to_nat ((-3) mod 2 ^ 30)) Uninit)).
Proof.
  exact (init_capacity_modulo 1 2 (-3) (init_world [true; true]) eq_refl eq_refl).
Defined.

(** A successful call, inverted. *)
Lemma init_success_inv sg wc aw w a w' :
  grapheme_bigint_external_init sg wc aw w = Some (Addr a, w') ->
  a = record_addr w
  /\ heap w' =
       <[record_addr w := BStruct (made_bigint sg wc (Addr (buffer_addr w)))]>
         (<[buffer_addr w :=
              BInts (replicate (int_slots (requested_bytes wc aw)) Uninit)]>
            (heap w))
  /\ trace w' = trace w ++
       [EvMalloc sizeof_grapheme_bigint (Addr (record_addr w));
        EvMalloc (requested_bytes wc aw) (Addr (buffer_addr w))]
  /\ handle_at w' (record_addr w) sg wc (buffer_addr w)
       (replicate (int_slots (requested_bytes wc aw)) Uninit).
Proof.
  intros Hrun.
  destruct (init_cases sg wc aw w)
    as [(_ & E) | [(_ & _ & E) | (Hg1 & Hg2 & E)]];
    rewrite E in Hrun; [discriminate | discriminate |].
  destruct (init_granted_handle sg wc aw w Hg1 Hg2) as (w1 & Hrun1 & Hh & _).
  rewrite E in Hrun1. injection Hrun as <- <-. injection Hrun1 as <-.
  repeat split; try reflexivity. exact Hh.
Qed.

(** Whatever its outcome, a call leaves the blocks already in the heap
    as they are. *)
Lemma init_frames_heap sg wc aw w p w' :
  grapheme_bigint_external_init sg wc aw w = Some (p, w') ->
  forall a blk, heap w !! a = Some blk -> heap w' !! a = Some blk.
Proof.
  intros Hrun a blk Ha.
  destruct (init_cases sg wc aw w)
    as [(_ & E) | [(_ & _ & E) | (_ & _ & E)]];
    rewrite E in Hrun; injection Hrun as <- <-; cbn [heap]; try exact Ha.
  pose proof (record_addr_unused w) as Hr.
  destruct (buffer_addr_unused w) as [Hb _].
  rewrite !lookup_insert_ne by congruence. exact Ha.
Qed.

(** X4: a successful [grapheme_bigint_external_init] adds exactly two
    blocks to the heap, the record and its buffer, at two different
    addresses that were both unused; every block that was there before is
    unchanged. *)
Theorem init_allocates_two_fresh_blocks
    (sg wc aw : Z) (w w' : world) (a : positive) :
  grapheme_bigint_external_init sg wc aw w = Some (Addr a, w') ->
  exists buf,
    grapheme_bigint_get_words (Addr a) w' = Some (Addr buf, w')
    /\ a <> buf
    /\ heap w !! a = None /\ heap w !! buf = None
    /\ dom (heap w') = {[a]} ∪ ({[buf]} ∪ dom (heap w))
    /\ forall a0 blk, heap w !! a0 = Some blk -> heap w' !! a0 = Some blk.
Proof.
  intros Hrun.
  pose proof (init_frames_heap _ _ _ _ _ _ Hrun) as Hframe.
  destruct (init_success_inv _ _ _ _ _ _ Hrun) as (-> & Hheap & _ & Hh).
  destruct (buffer_addr_unused w) as [Hb Hne].
  exists (buffer_addr w).
  split; [eapply get_words_handle, Hh|].
  split; [congruence|].
  split; [apply record_addr_unused|].
  split; [exact Hb|].
  split; [|exact Hframe].
  rewrite Hheap, !dom_insert_L. reflexivity.
Qed.

Lemma init_allocates_two_fresh_blocks_witness :
  exists w',
    grapheme_bigint_external_init 3 1 1 (init_world [true; true]) = Some (Addr 1, w')
    /\ exists buf,
         grapheme_bigint_get_words (Addr 1) w' = Some (Addr buf, w')
         /\ 1%positive <> buf
         /\ heap (init_world [true; true]) !! 1%positive = None
         /\ heap (init_world [true; true]) !! buf = None
         /\ dom (heap w') = {[1%positive]} ∪ ({[buf]} ∪ dom (heap (init_world [true; true])))
         /\ forall a0 blk,
              heap (init_world [true; true]) !! a0 = Some blk ->
              heap w' !! a0 = Some blk.
Proof.
  eexists. split; [vm_compute; reflexivity|].
  apply (init_allocates_two_fresh_blocks 3 1 1 (init_world [true; true])).
  vm_compute; reflexivity.
Defined.

(** ** Creation and destruction together *)

(** X5: [grapheme_free_bigint] on the handle that
    [grapheme_bigint_external_init] has just returned gives back the heap
    the creation started from; the allocator saw the two requests and
    then the two releases, the buffer first. *)
Theorem init_then_free_round_trip
    (sg wc aw : Z) (w w1 : world) (a : positive) :
  grapheme_bigint_external_init sg wc aw w = Some (Addr a, w1) ->
  exists buf w2,
    grapheme_free_bigint (Addr a) w1 = Some (tt, w2)
    /\ heap w2 = heap w
    /\ trace w2 = trace w ++
         [EvMalloc sizeof_grapheme_bigint (Addr a);
          EvMalloc (requested_bytes wc aw) (Addr buf);
          EvFree (Addr buf); EvFree (Addr a)].
Proof.
  intros Hrun.
  destruct (init_success_inv _ _ _ _ _ _ Hrun) as (-> & Hheap & Htrace & Hh).
  destruct (buffer_addr_unused w) as [Hb Hne].
  exists (buffer_addr w). eexists.
  split; [eapply free_bigint_handle, Hh|]. cbn [heap trace]. split.
  - rewrite Hheap.
    rewrite delete_insert_ne, delete_insert_eq, delete_insert_eq by congruence.
    rewrite (delete_id _ (buffer_addr w)) by exact Hb.
    apply delete_id, record_addr_unused.
  - rewrite Htrace, <- app_assoc. reflexivity.
Qed.

Lemma init_then_free_round_trip_witness :
  exists w1,
    grapheme_bigint_external_init 1 2 4 (init_world [true; true]) = Some (Addr 1, w1)
    /\ exists buf w2,
         grapheme_free_bigint (Addr 1) w1 = Some (tt, w2)
         /\ heap w2 = heap (init_world [true; true])
         /\ trace w2 = trace (init_world [true; true]) ++
              [EvMalloc sizeof_grapheme_bigint (Addr 1);
               EvMalloc (requested_bytes 2 4) (Addr buf);
               EvFree (Addr buf); EvFree (Addr 1)].
Proof.
  eexists. split; [vm_compute; reflexivity|].
  apply (init_then_free_round_trip 1 2 4 (init_world [true; true])).
  vm_compute; reflexivity.
Defined.

Lemma read_field_dead {A} a (f : grapheme_bigint -> cell A) w :
  heap w !! a = None -> read_field (Addr a) f w = None.
Proof.
  intros Ha. unfold read_field, bind, load. rewrite Ha. reflexivity.
Qed.

(** X6: once [grapheme_free_bigint] has run on a live handle, the handle
    and its buffer pointer are dead: a second [grapheme_free_bigint], any
    accessor on the handle and any access to the buffer are undefined. *)
Theorem free_bigint_then_use_undefined
    (w w' : world) (a : positive) (sg wc : Z) (buf : positive)
    (ws : list (cell Z)) :
  handle_at w a sg wc buf ws ->
  grapheme_free_bigint (Addr a) w = Some (tt, w') ->
  grapheme_free_bigint (Addr a) w' = None
  /\ grapheme_bigint_get_words (Addr a) w' = None
  /\ grapheme_bigint_get_sign (Addr a) w' = None
  /\ grapheme_bigint_get_word_count (Addr a) w' = None
  /\ (forall i v, write_word (Addr buf) i v w' = None)
  /\ (forall i, read_word (Addr buf) i w' = None).
Proof.
  intros Hh Hrun.
  pose proof (handle_record_not_buffer _ _ _ _ _ _ Hh) as Hne.
  rewrite (free_bigint_handle _ _ _ _ _ _ Hh) in Hrun. injection Hrun as <-.
  assert (Ha : delete a (delete buf (heap w)) !! a = None)
    by apply lookup_delete_eq.
  assert (Hb : delete a (delete buf (heap w)) !! buf = None).
  { rewrite lookup_delete_ne by congruence. apply lookup_delete_eq. }
  split.
  { unfold grapheme_free_bigint. apply bind_undefined.
    apply read_field_dead. exact Ha. }
  split; [apply read_field_dead; exact Ha|].
  split; [apply read_field_dead; exact Ha|].
  split; [apply read_field_dead; exact Ha|].
  split.
  - intros i v. unfold write_word. cbn [heap]. rewrite Hb. reflexivity.
  - intros i. unfold read_word. cbn [heap]. rewrite Hb. reflexivity.
Qed.

Lemma free_bigint_then_use_undefined_witness :
  exists w',
    grapheme_free_bigint (Addr 1) one_handle_world = Some (tt, w')
    /\ grapheme_free_bigint (Addr 1) w' = None
    /\ grapheme_bigint_get_words (Addr 1) w' = None
    /\ grapheme_bigint_get_sign (Addr 1) w' = None
    /\ grapheme_bigint_get_word_count (Addr 1) w' = None
    /\ (forall i v, write_word (Addr 2) i v w' = None)
    /\ (forall i, read_word (Addr 2) i w' = None).
Proof.
  eexists. split; [vm_compute; reflexivity|].
  apply (free_bigint_then_use_undefined one_handle_world _ 1 1 2 2
           (replicate 4 Uninit) one_handle_world_handle).
  vm_compute; reflexivity.
Defined.

(** X7: none of the other four functions tests its argument for null:
    when [grapheme_bigint_external_init] fails, passing its result on to
    an accessor or to [grapheme_free_bigint] is undefined. *)
Theorem failed_init_result_unusable (sg wc aw : Z) (w : world) :
  record_granted w && buffer_granted w = false ->
  exists w',
    grapheme_bigint_external_init sg wc aw w = Some (NULL, w')
    /\ grapheme_bigint_get_words NULL w' = None
    /\ grapheme_bigint_get_sign NULL w' = None
    /\ grapheme_bigint_get_word_count NULL w' = None
    /\ grapheme_free_bigint NULL w' = None.
Proof.
  intros Hg.
  destruct (init_cases sg wc aw w)
    as [(_ & E) | [(_ & _ & E) | (Hg1 & Hg2 & _)]].
  - eexists. split; [exact E|]. repeat split; reflexivity.
  - eexists. split; [exact E|]. repeat split; reflexivity.
  - rewrite Hg1, Hg2 in Hg. discriminate.
Qed.

Lemma failed_init_result_unusable_witness :
  exists w',
    grapheme_bigint_external_init 1 2 4 (init_world [true; false]) = Some (NULL, w')
    /\ grapheme_bigint_get_words NULL w' = None
    /\ grapheme_bigint_get_sign NULL w' = None
    /\ grapheme_bigint_get_word_count NULL w' = None
    /\ grapheme_free_bigint NULL w' = None.
Proof.
  exact (failed_init_result_unusable 1 2 4 (init_world [true; false]) eq_refl).
Defined.



(** ** Sessions *)

(** X9: in every heap reached from the empty one by calls of the
    interface and accesses to the buffers, each record is a complete
    handle (sign, word count and buffer pointer assigned, the buffer
    live) and no two records point to the same buffer. *)
Theorem session_keeps_ownership
    (answers : list bool) (cs : list call) (rs : list answer) (w' : world) :
  perform_all cs (init_world answers) = Some (rs, w') -> owned w'.
Proof.
  intros Hrun. eapply owned_perform_all; [apply owned_init_world | exact Hrun].
Qed.

Lemma session_keeps_ownership_witness :
  exists rs w',
    perform_all (Create 1 2 4 :: sample_session)
      (init_world [true; true; true; true]) = Some (rs, w')
    /\ owned w'.
Proof.
  eexists _, _. split; [vm_compute; reflexivity|].
  eapply (session_keeps_ownership [true; true; true; true]
            (Create 1 2 4 :: sample_session)).
  vm_compute; reflexivity.
Defined.

(** A call that does not disturb a handle leaves its record, its buffer
    and the contents of the buffer as they are. *)
Lemma perform_keeps_handle c w r w' a sg wc buf ws :
  owned w -> handle_at w a sg wc buf ws ->
  disturbs a buf c = false ->
  perform c w = Some (r, w') ->
  handle_at w' a sg wc buf ws.
Proof.
  intros Ho Hh Hd Hrun.
  destruct c; cbn [perform] in Hrun;
    apply fmap_M_inv in Hrun as (x & Hrun & _).
  - pose proof (init_frames_heap _ _ _ _ _ _ Hrun) as Hframe.
    destruct Hh as (b & Ha & Hs & Hc & Hw & Hbuf).
    exists b. repeat split; auto.
  - apply read_field_inv in Hrun as [-> _]. exact Hh.
  - apply read_field_inv in Hrun as [-> _]. exact Hh.
  - apply read_field_inv in Hrun as [-> _]. exact Hh.
  - destruct (free_bigint_inv w bigint x w' Ho Hrun)
      as (a0 & sg0 & wc0 & buf0 & ws0 & -> & Hh0 & Hheap).
    cbn [disturbs] in Hd. apply bool_decide_eq_false in Hd.
    destruct Ho as [_ Hinj].
    destruct Hh as (b & Ha & Hs & Hc & Hw & Hbuf).
    destruct Hh0 as (b0 & Ha0 & _ & _ & Hw0 & Hbuf0).
    assert (buf <> buf0).
    { intros ->. apply Hd. eapply Hinj; [exact Ha0 | exact Ha | congruence]. }
    exists b. rewrite Hheap, !lookup_delete_ne by congruence.
    repeat split; assumption.
  - apply write_word_inv in Hrun as (a0 & ws0 & -> & Ha0 & Hheap).
    cbn [disturbs] in Hd. apply bool_decide_eq_false in Hd.
    destruct Hh as (b & Ha & Hs & Hc & Hw & Hbuf).
    exists b. rewrite Hheap, !lookup_insert_ne by congruence.
    repeat split; assumption.
  - apply read_word_inv in Hrun as ->. exact Hh.
Qed.

(** X10: the functions of the file never read or write the words of a
    buffer, and never move it: over any session that neither destroys a
    handle nor writes into its buffer, the handle keeps its sign, its
    word count, its buffer pointer and the contents of the buffer, also
    when other handles are created and destroyed in between. *)
Theorem session_leaves_handle_undisturbed
    (cs : list call) (w w' : world) (rs : list answer)
    (a : positive) (sg wc : Z) (buf : positive) (ws : list (cell Z)) :
  owned w -> handle_at w a sg wc buf ws ->
  undisturbed a buf cs = true ->
  perform_all cs w = Some (rs, w') ->
  handle_at w' a sg wc buf ws.
Proof.
  revert w rs. induction cs as [|c cs IH]; intros w rs Ho Hh Hu Hrun.
  - injection Hrun as <- <-. exact Hh.
  - cbn [perform_all] in Hrun. unfold bind in Hrun.
    destruct (perform c w) as [[r w1]|] eqn:Hc; [|discriminate].
    destruct (perform_all cs w1) as [[rs1 w2]|] eqn:Hcs; [|discriminate].
    injection Hrun as <- <-.
    unfold undisturbed in Hu. cbn [forallb] in Hu.
    apply andb_true_iff in Hu as [Hd Hu]. apply negb_true_iff in Hd.
    eapply IH; [| |exact Hu|exact Hcs].
    + eapply owned_perform; eassumption.
    + eapply perform_keeps_handle; eassumption.
Qed.

Lemma one_handle_world_owned : owned one_handle_world.
Proof.
  split.
  - intros a b Ha. destruct (decide (a = 1%positive)) as [->|Hne].
    + do 4 eexists. exact one_handle_world_handle.
    + cbn [one_handle_world heap] in Ha.
      rewrite lookup_insert_ne in Ha by congruence.
      destruct (decide (a = 2%positive)) as [->|Hne2].
      * rewrite lookup_insert_eq in Ha. discriminate.
      * rewrite lookup_insert_ne, lookup_empty in Ha by congruence. discriminate.
  - assert (Hone : forall a b, heap one_handle_world !! a = Some (BStruct b) ->
              a = 1%positive).
    { intros a b Ha. destruct (decide (a = 1%positive)) as [->|Hne]; [reflexivity|].
      cbn [one_handle_world heap] in Ha.
      rewrite lookup_insert_ne in Ha by congruence.
      destruct (decide (a = 2%positive)) as [->|Hne2].
      - rewrite lookup_insert_eq in Ha. discriminate.
      - rewrite lookup_insert_ne, lookup_empty in Ha by congruence. discriminate. }
    intros a1 a2 b1 b2 H1 H2 _.
    rewrite (Hone _ _ H1), (Hone _ _ H2). reflexivity.
Qed.

Lemma session_leaves_handle_undisturbed_witness :
  exists rs w',
    perform_all
      [Create 5 1 (-1); WriteWord (Addr 4) 0 9; GetSign (Addr 1); Destroy (Addr 3)]
      {| heap := heap one_handle_world; allocator := [true; true]; trace := [] |}
      = Some (rs, w')
    /\ handle_at w' 1 1 2 2 (replicate 4 Uninit).
Proof.
  eexists _, _. split; [vm_compute; reflexivity|].
  eapply (session_leaves_handle_undisturbed
            [Create 5 1 (-1); WriteWord (Addr 4) 0 9; GetSign (Addr 1); Destroy (Addr 3)]
            {| heap := heap one_handle_world; allocator := [true; true]; trace := [] |}).
  - eapply owned_same_heap; [reflexivity | exact one_handle_world_owned].
  - exact one_handle_world_handle.
  - reflexivity.
  - vm_compute; reflexivity.
Defined.

(** ** No buffer without a record *)

Lemma no_orphans_init_world answers : no_orphans (init_world answers).
Proof.
  intros buf ws Hb. cbn [init_world heap] in Hb.
  rewrite lookup_empty in Hb. discriminate.
Qed.

Lemma no_orphans_perform c w r w' :
  owned w -> no_orphans w -> perform c w = Some (r, w') -> no_orphans w'.
Proof.
  intros Ho Hn Hrun.
  destruct c; cbn [perform] in Hrun;
    apply fmap_M_inv in Hrun as (x & Hrun & _).
  - pose proof (init_frames_heap _ _ _ _ _ _ Hrun) as Hframe.
    destruct (init_cases sign0 word_count0 allocated_words0 w)
      as [(_ & E) | [(_ & _ & E) | (_ & _ & E)]];
      rewrite E in Hrun; injection Hrun as <- <-.
    + exact Hn.
    + exact Hn.
    + intros buf ws Hb. cbn [heap] in Hb |- *.
      destruct (decide (buf = record_addr w)) as [->|Hne1].
      { rewrite lookup_insert_eq in Hb. discriminate. }
      rewrite lookup_insert_ne in Hb by congruence.
      destruct (decide (buf = buffer_addr w)) as [->|Hne2].
      * eexists _, _. split; [apply lookup_insert_eq | reflexivity].
      * rewrite lookup_insert_ne in Hb by congruence.
        destruct (Hn buf ws Hb) as (a & b & Ha & Hw).
        exists a, b. split; [|exact Hw]. apply Hframe in Ha. exact Ha.
  - apply read_field_inv in Hrun as [-> _]. exact Hn.
  - apply read_field_inv in Hrun as [-> _]. exact Hn.
  - apply read_field_inv in Hrun as [-> _]. exact Hn.
  - destruct (free_bigint_inv w bigint x w' Ho Hrun)
      as (a0 & sg0 & wc0 & buf0 & ws0 & -> & Hh0 & Hheap).
    destruct Hh0 as (b0 & Ha0 & _ & _ & Hw0 & Hbuf0).
    intros buf ws Hb. rewrite Hheap in Hb.
    apply lookup_delete_Some in Hb as [H1 Hb].
    apply lookup_delete_Some in Hb as [H2 Hb].
    destruct (Hn buf ws Hb) as (a & b & Ha & Hw).
    exists a, b. split; [|exact Hw].
    rewrite Hheap, !lookup_delete_ne by congruence. exact Ha.
  - apply write_word_inv in Hrun as (a0 & ws0 & -> & Ha0 & Hheap).
    intros buf ws Hb. rewrite Hheap in Hb.
    assert (exists ws1, heap w !! buf = Some (BInts ws1)) as [ws1 Hb1].
    { destruct (decide (buf = a0)) as [->|Hne]; [eauto|].
      rewrite lookup_insert_ne in Hb by congruence. eauto. }
    destruct (Hn buf ws1 Hb1) as (a & b & Ha & Hw).
    exists a, b. split; [|exact Hw].
    rewrite Hheap, lookup_insert_ne by congruence. exact Ha.
  - apply read_word_inv in Hrun as ->. exact Hn.
Qed.

Lemma no_orphans_perform_all cs : forall w rs w',
  owned w -> no_orphans w -> perform_all cs w = Some (rs, w') -> no_orphans w'.
Proof.
  induction cs as [|c cs IH]; intros w rs w' Ho Hn Hrun.
  - injection Hrun as <- <-. exact Hn.
  - cbn [perform_all] in Hrun. unfold bind in Hrun.
    destruct (perform c w) as [[r w1]|] eqn:Hc; [|discriminate].
    destruct (perform_all cs w1) as [[rs1 w2]|] eqn:Hcs; [|discriminate].
    injection Hrun as <- <-.
    eapply IH; [| |exact Hcs].
    + eapply owned_perform; eassumption.
    + eapply no_orphans_perform; eassumption.
Qed.

(** X11: the interface leaks no buffer.  In every heap reached from the
    empty one, each buffer belongs to a record that is still in the heap;
    so once every handle has been passed to [grapheme_free_bigint] the
    heap is empty again. *)
Theorem session_leaks_no_buffer
    (answers : list bool) (cs : list call) (rs : list answer) (w' : world) :
  perform_all cs (init_world answers) = Some (rs, w') ->
  no_orphans w'
  /\ ((forall a b, heap w' !! a <> Some (BStruct b)) -> heap w' = ∅).
Proof.
  intros Hrun.
  assert (Hn : no_orphans w').
  { eapply no_orphans_perform_all;
      [apply owned_init_world | apply no_orphans_init_world | exact Hrun]. }
  split; [exact Hn|].
  intros Hnone. apply map_empty. intros a.
  destruct (heap w' !! a) as [[b|ws]|] eqn:Ha; [| |reflexivity].
  - destruct (Hnone a b Ha).
  - destruct (Hn a ws Ha) as (a1 & b1 & Ha1 & _). destruct (Hnone a1 b1 Ha1).
Qed.

Lemma session_leaks_no_buffer_witness :
  exists rs w',
    perform_all sample_full_session (init_world [true; true; true; true])
      = Some (rs, w')
    /\ no_orphans w'
    /\ ((forall a b, heap w' !! a <> Some (BStruct b)) -> heap w' = ∅).
Proof.
  eexists _, _. split; [vm_compute; reflexivity|].
  eapply (session_leaks_no_buffer [true; true; true; true] sample_full_session).
  vm_compute; reflexivity.
Defined.
